(** * A shallow embedding of the e-commerce backend in [main.py]

    The handlers of [main.py] (categories, products, signup, login) are
    embedded as functions over an explicit world: the document store, the
    outcome of [from database import db], the wall clock and the supply of
    fresh object identifiers.

    Conventions.
    - A Python [str] is represented by the [string] of its UTF-8 bytes, so
      that [pw.encode()] is the list of the characters of the string.
    - A Python [dict] is a [gmap string value]; [d.get(k)] is [get k d].
    - A Python [int] is a [Z]; a 32-bit word is a [Z] reduced modulo 2^32. *)

From Stdlib Require Import ZArith List Ascii String Floats.SpecFloat.
From stdpp Require Import gmap strings list fin_maps finite.

Local Open Scope Z_scope.

(* ===================================================================== *)
(** * SHA-256, as [hashlib.sha256] computes it (FIPS 180-4)               *)
(* ===================================================================== *)

Module SHA256.

Definition mask32 : Z := 0xffffffff.
Definition modulus32 : Z := 2 ^ 32.

Definition add32 (a b : Z) : Z := (a + b) mod modulus32.

(** Rotation and shift to the right of a 32-bit word. *)
Definition rotr (n x : Z) : Z :=
  Z.land (Z.lor (Z.shiftr x n) (Z.shiftl x (32 - n))) mask32.
Definition shr (n x : Z) : Z := Z.shiftr x n.

Definition Ch (x y z : Z) : Z :=
  Z.lxor (Z.land x y) (Z.land (Z.lxor x mask32) z).
Definition Maj (x y z : Z) : Z :=
  Z.lxor (Z.lxor (Z.land x y) (Z.land x z)) (Z.land y z).
Definition Sigma0 (x : Z) : Z := Z.lxor (Z.lxor (rotr 2 x) (rotr 13 x)) (rotr 22 x).
Definition Sigma1 (x : Z) : Z := Z.lxor (Z.lxor (rotr 6 x) (rotr 11 x)) (rotr 25 x).
Definition sigma0 (x : Z) : Z := Z.lxor (Z.lxor (rotr 7 x) (rotr 18 x)) (shr 3 x).
Definition sigma1 (x : Z) : Z := Z.lxor (Z.lxor (rotr 17 x) (rotr 19 x)) (shr 10 x).

(** The constants of the standard are roots of the first primes: the first
    32 bits of the fractional part of the cube root of each of the first 64
    primes (the round constants) and of the square root of each of the
    first 8 primes (the initial state). *)
Definition is_prime (n : Z) : bool :=
  forallb (fun d => negb (n mod Z.of_nat d =? 0)) (seq 2 (Z.to_nat n - 2)).

Definition primes : list Z := List.filter is_prime (map Z.of_nat (seq 2 310)).

(** The largest [r] below 2^36 with [r ^ k <= n]. *)
Definition iroot (k n : Z) : Z :=
  fold_left (fun r b => let r' := r + 2 ^ Z.of_nat b in
                        if r' ^ k <=? n then r' else r)
            (rev (seq 0 36)) 0.

Definition root_bits (k p : Z) : Z := iroot k (p * 2 ^ (32 * k)) mod 2 ^ 32.

Definition K : list Z := Eval vm_compute in map (root_bits 3) primes.

(** The eight working words of the hash state. *)
Record state := State {
  h0 : Z; h1 : Z; h2 : Z; h3 : Z; h4 : Z; h5 : Z; h6 : Z; h7 : Z
}.

Definition initial : state :=
  Eval vm_compute in
    match map (root_bits 2) (firstn 8 primes) with
    | [a; b; c; d; e; f; g; h] => State a b c d e f g h
    | _ => State 0 0 0 0 0 0 0 0
    end.

Definition words (s : state) : list Z :=
  [h0 s; h1 s; h2 s; h3 s; h4 s; h5 s; h6 s; h7 s].

(** Padding: the byte 0x80, zero bytes up to 56 modulo 64, then the bit
    length of the message as a 64-bit big-endian integer. *)
Definition be_bytes (n : nat) (x : Z) : list Z :=
  map (fun i => Z.land (Z.shiftr x (8 * Z.of_nat i)) 0xff) (rev (seq 0 n)).

Definition pad (msg : list Z) : list Z :=
  let len := Z.of_nat (length msg) in
  let zeros := Z.to_nat ((55 - len) mod 64) in
  msg ++ [0x80] ++ repeat 0 zeros ++ be_bytes 8 ((8 * len) mod 2 ^ 64).

(** Four bytes, big-endian, as one word. *)
Definition word_of_bytes (b : list Z) : Z :=
  fold_left (fun acc x => Z.lor (Z.shiftl acc 8) x) b 0.

Fixpoint chunks (fuel n : nat) (l : list Z) : list (list Z) :=
  match fuel, l with
  | O, _ | _, [] => []
  | S fuel', _ => firstn n l :: chunks fuel' n (skipn n l)
  end.

Definition block_words (block : list Z) : list Z :=
  map word_of_bytes (chunks 16 4 block).

(** The message schedule: the sixteen words of the block, extended to
    sixty-four. *)
Fixpoint extend (fuel : nat) (w : list Z) : list Z :=
  match fuel with
  | O => w
  | S fuel' =>
      let t := length w in
      let at_ (k : nat) := nth (t - k) w 0 in
      let x := add32 (add32 (add32 (sigma1 (at_ 2%nat)) (at_ 7%nat))
                            (sigma0 (at_ 15%nat))) (at_ 16%nat) in
      extend fuel' (w ++ [x])
  end.

Definition schedule (block : list Z) : list Z := extend 48 (block_words block).

Definition round (s : state) (kw : Z * Z) : state :=
  let '(k, w) := kw in
  let t1 := add32 (add32 (add32 (add32 (h7 s) (Sigma1 (h4 s)))
                                (Ch (h4 s) (h5 s) (h6 s))) k) w in
  let t2 := add32 (Sigma0 (h0 s)) (Maj (h0 s) (h1 s) (h2 s)) in
  State (add32 t1 t2) (h0 s) (h1 s) (h2 s) (add32 (h3 s) t1) (h4 s) (h5 s) (h6 s).

Definition compress (s : state) (block : list Z) : state :=
  let r := fold_left round (combine K (schedule block)) s in
  State (add32 (h0 s) (h0 r)) (add32 (h1 s) (h1 r))
        (add32 (h2 s) (h2 r)) (add32 (h3 s) (h3 r))
        (add32 (h4 s) (h4 r)) (add32 (h5 s) (h5 r))
        (add32 (h6 s) (h6 r)) (add32 (h7 s) (h7 r)).

Definition digest (msg : list Z) : state :=
  let p := pad msg in
  fold_left compress (chunks (length p) 64 p) initial.

(** [hexdigest]: every word as eight lowercase hexadecimal digits. *)
Definition hex_digit (d : Z) : ascii :=
  if d <? 10 then ascii_of_N (Z.to_N (48 + d)) else ascii_of_N (Z.to_N (87 + d)).

Definition hex_word (x : Z) : list ascii :=
  map (fun i => hex_digit (Z.land (Z.shiftr x (4 * Z.of_nat i)) 0xf)) (rev (seq 0 8)).

Definition hexdigest (s : state) : string :=
  string_of_list_ascii (concat (map hex_word (words s))).

Definition encode (s : string) : list Z :=
  map (fun c => Z.of_N (N_of_ascii c)) (list_ascii_of_string s).

Definition sha256_hex (s : string) : string := hexdigest (digest (encode s)).

End SHA256.

(** [hash_password(pw) = sha256(pw.encode()).hexdigest()] *)
Definition hash_password (pw : string) : string := SHA256.sha256_hex pw.

(* ===================================================================== *)
(** * Values, documents and the world                                     *)
(* ===================================================================== *)

(** The values that occur in the documents and responses of the program:
    [None], booleans, strings, floats (prices), UTC datetimes (as a clock
    reading), object identifiers and nested dictionaries. *)
#[warnings="-register-all"]
Inductive value :=
| VNone
| VBool (b : bool)
| VStr (s : string)
| VFloat (f : spec_float)
| VDate (t : Z)
| VOid (o : N)
| VDict (d : gmap string value).

Abbreviation doc := (gmap string value).

(** [d.get(k)] and [d.get(k, v)] *)
Definition get (k : string) (d : doc) : value := default VNone (d !! k).
Definition get_default (k : string) (v : value) (d : doc) : value := default v (d !! k).

(** [v == s] for a string [s] *)
Definition eq_str (v : value) (s : string) : bool :=
  match v with
  | VStr s' => bool_decide (s' = s)
  | _ => false
  end.

(** What [from database import db] gives: the import raises, or it binds
    [db] to [None] (the case [test_database] reports as "not initialized"),
    or it binds [db] to a database handle. *)
Inductive database := ImportFails | DbIsNone | DbReady.

Record World := mkWorld {
  db : database;                     (* outcome of the import *)
  store : gmap string (list doc);    (* the collections, in natural order *)
  clock : nat → Z;                   (* reading of the n-th call of datetime.now *)
  ticks : nat;                       (* calls of datetime.now so far *)
  next_oid : N                       (* supply of fresh ObjectIds *)
}.

Definition set_store (s : gmap string (list doc)) (w : World) : World :=
  mkWorld (db w) s (clock w) (ticks w) (next_oid w).

(** The documents of a collection; a collection never written to is empty. *)
Definition coll (name : string) (w : World) : list doc := store w !!! name.

(** ** Exceptions and the handler monad *)

Inductive exn :=
| HTTPException (status_code : Z) (detail : string)
| TypeError (msg : string).

Inductive outcome (A : Type) :=
| Ok (a : A)
| Raised (e : exn).
Arguments Ok {A} a.
Arguments Raised {A} e.

Definition handler (A : Type) : Type := World → outcome A * World.

#[global] Instance handler_ret : MRet handler := λ A a w, (Ok a, w).
#[global] Instance handler_bind : MBind handler := λ A B f m w,
  match m w with
  | (Ok a, w') => f a w'
  | (Raised e, w') => (Raised e, w')
  end.
#[global] Instance handler_fmap : FMap handler := λ A B f m w,
  match m w with
  | (Ok a, w') => (Ok (f a), w')
  | (Raised e, w') => (Raised e, w')
  end.

Definition raise {A} (e : exn) : handler A := λ w, (Raised e, w).

(** [try: from database import ... except Exception: <fallback>] followed by
    the rest of the handler. *)
Definition try_import {A} (fallback body : handler A) : handler A :=
  λ w, match db w with
       | ImportFails => fallback w
       | _ => body w
       end.

(** [datetime.now(timezone.utc)] *)
Definition now : handler value :=
  λ w, (Ok (VDate (clock w (ticks w))),
        mkWorld (db w) (store w) (clock w) (S (ticks w)) (next_oid w)).

(** ** The document store

    The module [database] and the driver behind it are outside the sources
    ("the database driver/connection itself (treated as an external
    collaborator)"); the handlers reach them through [db[name]] and the
    collection methods [find], [find_one] and [insert_one]. *)

Definition not_subscriptable : exn :=
  TypeError "'NoneType' object is not subscriptable".

(** Modelled from the spec: [db[name]], the collection of that name of the
    store ("Persisted collections: category, product, user"). Subscripting
    [db] when it is [None] raises [TypeError]. *)
Definition collection (name : string) : handler (list doc) :=
  λ w, match db w with
       | DbReady => (Ok (coll name w), w)
       | _ => (Raised not_subscriptable, w)
       end.

Definition field_matches (d : doc) (k s : string) : bool := eq_str (get k d) s.

(** Modelled from the spec: the "equality filter" of a query. A document
    matches when it carries every field of the filter with an equal value;
    the filters of this program have string values only. *)
Definition matches (q : gmap string string) (d : doc) : bool :=
  bool_decide (map_Forall (λ k s, field_matches d k s = true) q).

(** Modelled from the spec: [db[name].find(q)], read to the end: the
    matching documents in natural order. *)
Definition find (name : string) (q : gmap string string) : handler (list doc) :=
  c ← collection name; mret (List.filter (matches q) c).

(** Modelled from the spec: [db[name].find_one(q)], the first matching
    document or [None]. *)
Definition find_one (name : string) (q : gmap string string) : handler (option doc) :=
  c ← collection name; mret (head (List.filter (matches q) c)).

(** Modelled from the spec: [cursor.limit(n)] ("queries with a limit"). As
    the driver documents it, a limit of 0 is no limit and a negative limit
    counts as its absolute value; the properties below rely on the value of
    the limit for positive limits only. *)
Definition cursor_limit (n : Z) (c : list doc) : list doc :=
  if n =? 0 then c else firstn (Z.abs_nat n) c.

Definition fresh_oid : handler value :=
  λ w, (Ok (VOid (next_oid w)),
        mkWorld (db w) (store w) (clock w) (ticks w) (N.succ (next_oid w))).

Definition put_collection (name : string) (c : list doc) : handler unit :=
  λ w, (Ok tt, set_store (<[name := c]> (store w)) w).

(** Modelled from the spec: [db[name].insert_one(d)] ("inserts a new user
    record", "inserts six seed records"): the document is appended to the
    collection, with a fresh ObjectId as [_id] when it has none, and the
    identifier is returned as [inserted_id]. *)
Definition insert_one (name : string) (d : doc) : handler value :=
  c ← collection name;
  i ← match d !! "_id" with
      | Some i => mret i
      | None => fresh_oid
      end;
  put_collection name (c ++ [<["_id" := i]> d]);;
  mret i.

(** ** Python fragments *)

(** [l[:n]] *)
Definition slice_to {A} (n : Z) (l : list A) : list A :=
  if 0 <=? n then firstn (Z.to_nat n) l
  else firstn (Z.to_nat (Z.of_nat (length l) + n)) l.

(** Truth value of an [Optional[str]]: [None] and the empty string are false. *)
Definition truthy_str (s : option string) : bool :=
  match s with
  | Some s => negb (bool_decide (s = ""%string))
  | None => false
  end.

(** Truth value of what [find_one] returns: [None] and the empty dict are
    false. *)
Definition truthy_doc (d : option doc) : bool :=
  match d with
  | Some d => negb (bool_decide (dom d = ∅))
  | None => false
  end.

(** [for x in l: body(x)] *)
Fixpoint for_each {A} (l : list A) (body : A → handler unit) : handler unit :=
  match l with
  | [] => mret tt
  | x :: l' => body x;; for_each l' body
  end.

(** [str(ObjectId)]: the twelve bytes as 24 lowercase hexadecimal digits. *)
Definition oid_hex (o : N) : string :=
  string_of_list_ascii
    (map (λ i, SHA256.hex_digit (Z.land (Z.shiftr (Z.of_N o) (4 * Z.of_nat i)) 0xf))
         (rev (seq 0 24))).

(* ===================================================================== *)
(** * The handlers of [main.py]                                           *)
(* ===================================================================== *)

Local Open Scope string_scope.

Record SignUpRequest := mkSignUp { su_name : string; su_email : string; su_password : string }.
Record LoginRequest := mkLogin { li_email : string; li_password : string }.

(** ** [get_categories] *)

Definition static_categories : list doc :=
  [ {[ "name" := VStr "Engine"; "slug" := VStr "engine"; "description" := VStr "Performance engine parts" ]};
    {[ "name" := VStr "Braking"; "slug" := VStr "braking"; "description" := VStr "Pads, rotors, kits" ]};
    {[ "name" := VStr "Suspension"; "slug" := VStr "suspension"; "description" := VStr "Coilovers, arms, bushings" ]};
    {[ "name" := VStr "Electronics"; "slug" := VStr "electronics"; "description" := VStr "Sensors, ECUs, harnesses" ]};
    {[ "name" := VStr "LED Lighting"; "slug" := VStr "lighting"; "description" := VStr "Headlights, strips, kits" ]};
    {[ "name" := VStr "Bodywork"; "slug" := VStr "bodywork"; "description" := VStr "Aero, trims, panels" ]} ].

Definition seed : list doc :=
  [ {[ "name" := VStr "Engine"; "slug" := VStr "engine"; "description" := VStr "Performance engine parts"; "icon" := VStr "Cog" ]};
    {[ "name" := VStr "Braking"; "slug" := VStr "braking"; "description" := VStr "Pads, rotors, kits"; "icon" := VStr "Disc3" ]};
    {[ "name" := VStr "Suspension"; "slug" := VStr "suspension"; "description" := VStr "Coilovers, arms, bushings"; "icon" := VStr "Wrench" ]};
    {[ "name" := VStr "Electronics"; "slug" := VStr "electronics"; "description" := VStr "Sensors, ECUs, harnesses"; "icon" := VStr "Cpu" ]};
    {[ "name" := VStr "LED Lighting"; "slug" := VStr "lighting"; "description" := VStr "Headlights, strips, kits"; "icon" := VStr "Lightbulb" ]};
    {[ "name" := VStr "Bodywork"; "slug" := VStr "bodywork"; "description" := VStr "Aero, trims, panels"; "icon" := VStr "Zap" ]} ].

(** [{**s, "created_at": datetime.now(...), "updated_at": datetime.now(...)}] *)
Definition stamped (s : doc) : handler doc :=
  created ← now;
  updated ← now;
  mret (<["updated_at" := updated]> (<["created_at" := created]> s)).

(** The body of [for s in seed:]. *)
Definition seed_one (s : doc) : handler unit :=
  d ← stamped s; insert_one "category" d;; mret tt.

Definition category_out (c : doc) : doc :=
  {[ "name" := get "name" c;
     "slug" := get "slug" c;
     "description" := get "description" c;
     "icon" := get "icon" c ]}.

Definition get_categories : handler (list doc) :=
  try_import
    (mret static_categories)
    (existing ← find "category" ∅;
     existing ← match existing with
                | [] =>
                    for_each seed seed_one;;
                    find "category" ∅
                | _ :: _ => mret existing
                end;
     mret (category_out <$> existing)).

(** ** [list_products] *)

Definition price_299_99 : spec_float := S754_finite false 5277479891464356 (-44).
Definition price_189_5 : spec_float := S754_finite false 6667438510833664 (-45).

Definition demo_products : list doc :=
  [ {[ "_id" := VStr "1"; "title" := VStr "Carbon Intake Kit";
       "description" := VStr "High-flow carbon fiber intake";
       "price" := VFloat price_299_99; "category" := VStr "engine";
       "in_stock" := VBool true; "image_url" := VNone ]};
    {[ "_id" := VStr "2"; "title" := VStr "Drilled Brake Rotors";
       "description" := VStr "Performance rotor pair";
       "price" := VFloat price_189_5; "category" := VStr "braking";
       "in_stock" := VBool true; "image_url" := VNone ]} ].

(** The category the request provides: [if category:] holds for a string
    that is not empty. *)
Definition provided (category : option string) : option string :=
  match category with
  | Some c => if truthy_str category then Some c else None
  | None => None
  end.

Definition demo_product_out (d : doc) : doc :=
  {[ "id" := get "_id" d;
     "title" := get "title" d;
     "description" := get "description" d;
     "price" := get "price" d;
     "category" := get "category" d;
     "in_stock" := get_default "in_stock" (VBool true) d;
     "image_url" := get "image_url" d ]}.

Section Handlers.

(** [str] of a float, a datetime or a dictionary: the handlers apply [str]
    to identifiers only and depend on none of these formats. *)
Variable str_other : value → string.

Definition py_str (v : value) : string :=
  match v with
  | VNone => "None"
  | VBool true => "True"
  | VBool false => "False"
  | VStr s => s
  | VOid o => oid_hex o
  | _ => str_other v
  end.

Definition product_out (d : doc) : doc :=
  {[ "id" := VStr (py_str (get "_id" d));
     "title" := get "title" d;
     "description" := get "description" d;
     "price" := get "price" d;
     "category" := get "category" d;
     "in_stock" := get_default "in_stock" (VBool true) d;
     "image_url" := get "image_url" d ]}.

Definition list_products (category : option string) (limit : Z) : handler (list doc) :=
  try_import
    (let demo :=
       match provided category with
       | Some c => List.filter (λ d, eq_str (get "category" d) c) demo_products
       | None => demo_products
       end in
     mret (demo_product_out <$> slice_to limit demo))
    (let q : gmap string string :=
       match provided category with
       | Some c => <["category" := c]> ∅
       | None => ∅
       end in
     docs ← cursor_limit limit <$> find "product" q;
     mret (product_out <$> docs)).

(** ** [signup] and [login] *)

Definition signup (payload : SignUpRequest) : handler doc :=
  try_import
    (mret {[ "ok" := VBool true;
             "message" := VStr "Signed up (demo mode)";
             "user" := VDict {[ "name" := VStr (su_name payload);
                                "email" := VStr (su_email payload) ]} ]})
    (existing ← find_one "user" {[ "email" := su_email payload ]};
     if truthy_doc existing
     then raise (HTTPException 400 "Email already registered")
     else
       let password_hash := hash_password (su_password payload) in
       created ← now;
       updated ← now;
       inserted_id ← insert_one "user"
         {[ "name" := VStr (su_name payload);
            "email" := VStr (su_email payload);
            "password_hash" := VStr password_hash;
            "is_active" := VBool true;
            "created_at" := created;
            "updated_at" := updated ]};
       mret {[ "ok" := VBool true; "user_id" := VStr (py_str inserted_id) ]}).

Definition login (payload : LoginRequest) : handler doc :=
  try_import
    (mret {[ "ok" := VBool true;
             "message" := VStr "Logged in (demo mode)";
             "email" := VStr (li_email payload) ]})
    (found ← find_one "user" {[ "email" := li_email payload ]};
     if negb (truthy_doc found)
     then raise (HTTPException 401 "Invalid credentials")
     else
       let u : doc := default ∅ found in
       if negb (eq_str (get "password_hash" u) (hash_password (li_password payload)))
       then raise (HTTPException 401 "Invalid credentials")
       else mret {[ "ok" := VBool true;
                    "user_id" := VStr (py_str (get "_id" u));
                    "name" := get "name" u ]}).

End Handlers.

(* ===================================================================== *)
(** * Notions used in the statements                                      *)
(* ===================================================================== *)

Local Open Scope Z_scope.
Local Open Scope list_scope.

(** The world after [n] successive calls of a handler. *)
Fixpoint after_calls {A} (h : handler A) (n : nat) (w : World) : World :=
  match n with
  | O => w
  | S n' => after_calls h n' (h w).2
  end.

(** The documents the seeding loop stores for the rows [l], when it starts
    at clock tick [t] with [o] the next fresh identifier. *)
Fixpoint stamp_all (clk : nat → Z) (t : nat) (o : N) (l : list doc) : list doc :=
  match l with
  | [] => []
  | s :: l' =>
      <["_id" := VOid o]>
        (<["updated_at" := VDate (clk (S t))]> (<["created_at" := VDate (clk t)]> s))
      :: stamp_all clk (S (S t)) (N.succ o) l'
  end.

(** The document [signup] stores for a payload. *)
Definition user_doc (payload : SignUpRequest) (created updated : Z) (o : N) : doc :=
  <["_id" := VOid o]>
    {[ "name" := VStr (su_name payload);
       "email" := VStr (su_email payload);
       "password_hash" := VStr (hash_password (su_password payload));
       "is_active" := VBool true;
       "created_at" := VDate created;
       "updated_at" := VDate updated ]}.

(** The records [list_products] chooses from: the two demo records when
    the import fails, the product collection otherwise; and those of them
    that match the category of the request. *)
Definition candidates (w : World) : list doc :=
  match db w with
  | ImportFails => demo_products
  | _ => coll "product" w
  end.

Definition matching (category : option string) (w : World) : list doc :=
  match provided category with
  | Some c => List.filter (λ d, eq_str (get "category" d) c) (candidates w)
  | None => candidates w
  end.

(** The user record a lookup by email yields: the first document of the
    user collection, in natural order, whose email field is that string. *)
Definition user_with_email (email : string) (w : World) : option doc :=
  head (List.filter (λ d, eq_str (get "email" d) email) (coll "user" w)).

(** The two failures the handlers raise. *)
Definition duplicate_email : exn := HTTPException 400 "Email already registered".
Definition invalid_credentials : exn := HTTPException 401 "Invalid credentials".




(** The keys of the public product shape. *)
Definition product_keys : gset string :=
  {[ "id"; "title"; "description"; "price"; "category"; "in_stock"; "image_url" ]}.

Definition category_keys : gset string :=
  {[ "name"; "slug"; "description"; "icon" ]}.

(** A well-known sample world: a reachable, empty store. *)
Definition empty_world : World :=
  mkWorld DbReady ∅ (λ n, 1700000000 + Z.of_nat n) 0 0.

(** A world in which the import of the database module fails. *)
Definition demo_world : World :=
  mkWorld ImportFails ∅ (λ n, 1700000000 + Z.of_nat n) 0 0.

(** A reachable store with two products; the first has no [in_stock]
    field. *)
Definition sample_products : list doc :=
  [ {[ "_id" := VOid 1; "title" := VStr "Carbon Intake Kit";
       "price" := VFloat price_299_99; "category" := VStr "engine" ]};
    {[ "_id" := VOid 2; "title" := VStr "Drilled Brake Rotors";
       "price" := VFloat price_189_5; "category" := VStr "braking";
       "in_stock" := VBool false ]} ].

Definition shop_world : World :=
  mkWorld DbReady {[ "product" := sample_products ]}
          (λ n, 1700000000 + Z.of_nat n) 0 3.

(** A reachable store with one user, as a signup of Ann leaves it. *)
Definition ann : SignUpRequest := mkSignUp "Ann" "ann@example.com" "hunter2".

Definition ann_world : World :=
  mkWorld DbReady {[ "user" := [user_doc ann 1700000000 1700000001 0] ]}
          (λ n, 1700000000 + Z.of_nat n) 2 1.

(** A sample rendering of the values the handlers never print. *)
Definition str_repr : value → string := λ _, "<repr>".

(* ===================================================================== *)
(** * The diagnostic endpoint [test_database]                             *)
(* ===================================================================== *)

(** The values of the diagnostic response: [None], a string, or a list of
    strings. *)
Inductive diag_value :=
| DNone
| DStr (s : string)
| DList (l : list string).

(** What [db.list_collection_names()] does: it raises an exception, given
    here by its [str], or it returns the names. *)
Inductive listing :=
| ListingRaises (message : string)
| Listing (names : list string).

(** The object [db] as [test_database] uses it: [db.name] when [db] has
    this attribute, and the outcome of listing the collections. *)
Record db_handle := mkHandle {
  db_name : option string;
  list_collection_names : listing
}.

(** What [from database import db] does, as [test_database] tells the cases
    apart: [ImportError], another exception (given by its [str]), or a
    binding of [db] to [None] or to a handle. *)
Inductive import_outcome :=
| RaisesImportError
| RaisesException (message : string)
| Binds (handle : option db_handle).

(** The same outcome as the business handlers see it. *)
Definition database_of (i : import_outcome) : database :=
  match i with
  | RaisesImportError | RaisesException _ => ImportFails
  | Binds None => DbIsNone
  | Binds (Some _) => DbReady
  end.

(** A byte that continues a character of the UTF-8 encoding (10xxxxxx). *)
Definition is_continuation (c : ascii) : bool :=
  (N_of_ascii c / 64 =? 2)%N.

(** [len(s)]: the number of characters of a string. *)
Fixpoint char_count (s : string) : nat :=
  match s with
  | EmptyString => O
  | String c s' => if is_continuation c then char_count s' else S (char_count s')
  end.

(** [s[:n]] for a string and [n >= 0]: its first [n] characters. *)
Fixpoint str_take (n : nat) (s : string) : string :=
  match s with
  | EmptyString => EmptyString
  | String c s' =>
      if is_continuation c then String c (str_take n s')
      else match n with
           | O => EmptyString
           | S n' => String c (str_take n' s')
           end
  end.

Definition initial_response : gmap string diag_value :=
  {[ "backend" := DStr "✅ Running";
     "database" := DStr "❌ Not Available";
     "database_url" := DNone;
     "database_name" := DNone;
     "connection_status" := DStr "Not Connected";
     "collections" := DList [] ]}.

(** The inner [try]: listing the collections of a handle. *)
Definition probe_collections (h : db_handle) (response : gmap string diag_value)
    : gmap string diag_value :=
  match list_collection_names h with
  | Listing collections =>
      <["database" := DStr "✅ Connected & Working"]>
        (<["collections" := DList (slice_to 10 collections)]> response)
  | ListingRaises e =>
      <["database" := DStr ("⚠️  Connected but Error: " +:+ str_take 50 e)]> response
  end.

(** The outer [try] with its two [except] clauses. *)
Definition probe_database (i : import_outcome) (response : gmap string diag_value)
    : gmap string diag_value :=
  match i with
  | Binds (Some h) =>
      probe_collections h
        (<["connection_status" := DStr "Connected"]>
           (<["database_name" := DStr (default "✅ Connected" (db_name h))]>
              (<["database_url" := DStr "✅ Configured"]>
                 (<["database" := DStr "✅ Available"]> response))))
  | Binds None =>
      <["database" := DStr "⚠️  Available but not initialized"]> response
  | RaisesImportError =>
      <["database" := DStr "❌ Database module not found (run enable-database first)"]> response
  | RaisesException e =>
      <["database" := DStr ("❌ Error: " +:+ str_take 50 e)]> response
  end.

(** The status of an environment variable: set (and not empty) or not. *)
Definition env_status (environ : gmap string string) (k : string) : diag_value :=
  DStr (if truthy_str (environ !! k) then "✅ Set" else "❌ Not Set").

Definition test_database (i : import_outcome) (environ : gmap string string)
    : gmap string diag_value :=
  let response := probe_database i initial_response in
  let response := <["database_url" := env_status environ "DATABASE_URL"]> response in
  let response := <["database_name" := env_status environ "DATABASE_NAME"]> response in
  response.

(** The keys of the diagnostic response. *)
Definition diag_keys : gset string :=
  {[ "backend"; "database"; "database_url"; "database_name";
     "connection_status"; "collections" ]}.

(** The emails of the user records, in the order of the collection. *)
Definition emails (users : list doc) : list string :=
  omap (λ d : doc, match get "email" d with VStr e => Some e | _ => None end) users.


(** A handle on a store with two collections, and one whose listing fails. *)
Definition working_handle : db_handle :=
  mkHandle (Some "shop") (Listing ["category"; "product"]).

Definition failing_handle : db_handle :=
  mkHandle (Some "shop") (ListingRaises "connection refused").

(** A world in which the import binds [db] to [None]. *)
Definition uninitialised_world : World :=
  mkWorld DbIsNone ∅ (λ n, 1700000000 + Z.of_nat n) 0 0.

(* ===================================================================== *)
(** * Equations of the store operations                                   *)
(* ===================================================================== *)

Lemma collection_ready name w :
  db w = DbReady → collection name w = (Ok (coll name w), w).
Proof. intros H. unfold collection. by rewrite H. Qed.

Lemma find_ready name q w :
  db w = DbReady → find name q w = (Ok (List.filter (matches q) (coll name w)), w).
Proof.
  intros H. unfold find, mbind, handler_bind. by rewrite collection_ready.
Qed.

Lemma find_one_ready name q w :
  db w = DbReady →
  find_one name q w = (Ok (head (List.filter (matches q) (coll name w))), w).
Proof.
  intros H. unfold find_one, mbind, handler_bind. by rewrite collection_ready.
Qed.

Lemma matches_empty d : matches ∅ d = true.
Proof. unfold matches. apply bool_decide_eq_true. apply map_Forall_empty. Qed.

Lemma matches_singleton k s d :
  matches {[ k := s ]} d = eq_str (get k d) s.
Proof.
  unfold matches, field_matches.
  destruct (eq_str (get k d) s) eqn:E.
  - apply bool_decide_eq_true. by apply map_Forall_singleton.
  - apply bool_decide_eq_false. intros H%map_Forall_singleton. congruence.
Qed.

Lemma filter_matches_empty (c : list doc) : List.filter (matches ∅) c = c.
Proof.
  induction c as [|d c IH]; simpl; [done|]. by rewrite matches_empty, IH.
Qed.

Lemma eq_str_true v s : eq_str v s = true ↔ v = VStr s.
Proof.
  destruct v; simpl; try (split; [discriminate | congruence]).
  rewrite bool_decide_eq_true. split; congruence.
Qed.

(** A document with a string field is not the empty dict: what [find_one]
    returns for a one-field filter is true as a condition. *)
Lemma truthy_of_field (d : doc) k s : eq_str (get k d) s = true → truthy_doc (Some d) = true.
Proof.
  intros H%eq_str_true. unfold truthy_doc, get in *.
  apply negb_true_iff, bool_decide_eq_false. intros Hd.
  apply dom_empty_inv_L in Hd. subst d. rewrite lookup_empty in H. discriminate.
Qed.

(* ===================================================================== *)
(** * The password hash                                                   *)
(* ===================================================================== *)

(** The constants, against the table of the standard. *)
Example sha256_constants :
  length SHA256.K = 64%nat
  ∧ take 4 SHA256.K = [0x428a2f98; 0x71374491; 0xb5c0fbcf; 0xe9b5dba5]
  ∧ last SHA256.K = Some 0xc67178f2
  ∧ SHA256.h0 SHA256.initial = 0x6a09e667
  ∧ SHA256.h7 SHA256.initial = 0x5be0cd19.
Proof. vm_compute. repeat split. Qed.

(** Test vectors of SHA-256. *)
Example hash_password_abc :
  hash_password "abc"
  = "ba7816bf8f01cfea414140de5dae2223b00361a396177a9cb410ff61f20015ad"%string.
Proof. vm_compute. reflexivity. Qed.

Example hash_password_empty :
  hash_password ""
  = "e3b0c44298fc1c149afbf4c8996fb92427ae41e4649b934ca495991b7852b855"%string.
Proof. vm_compute. reflexivity. Qed.

Example hash_password_two_blocks :
  hash_password "aaaaaaaaaaaaaaaaaaaaaaaaaaaaaaaaaaaaaaaaaaaaaaaaaaaaaaaa"
  = "b35439a4ac6f0948b6d6f9e3c6af0f5f590ce20f1bde7090ef7970686ec6738a"%string.
Proof. vm_compute. reflexivity. Qed.

(* ===================================================================== *)
(** * Demo mode: the import of the database module fails                  *)
(* ===================================================================== *)

Lemma get_categories_demo w :
  db w = ImportFails → get_categories w = (Ok static_categories, w).
Proof. intros H. unfold get_categories, try_import. by rewrite H. Qed.

Lemma after_calls_demo n w :
  db w = ImportFails → after_calls get_categories n w = w.
Proof.
  revert w. induction n as [|n IH]; intros w H; simpl; [done|].
  rewrite get_categories_demo by done. simpl. by apply IH.
Qed.

(** C1. When the import of the database module fails, [get_categories]
    returns the same list of six fixed category records, named Engine,
    Braking, Suspension, Electronics, LED Lighting and Bodywork, whatever
    the number [n] of calls made before, and leaves the world as it is. *)
Theorem get_categories_static (w : World) (n : nat) :
  db w = ImportFails →
  get_categories (after_calls get_categories n w)
    = (Ok static_categories, after_calls get_categories n w)
  ∧ after_calls get_categories n w = w
  ∧ length static_categories = 6%nat
  ∧ get "name" <$> static_categories
    = [VStr "Engine"; VStr "Braking"; VStr "Suspension";
       VStr "Electronics"; VStr "LED Lighting"; VStr "Bodywork"].
Proof.
  intros H. rewrite after_calls_demo by done.
  split; [by apply get_categories_demo|].
  split; [done|]. split; [done|]. vm_compute. reflexivity.
Qed.

Lemma get_categories_static_witness :
  get_categories (after_calls get_categories 3 demo_world)
    = (Ok static_categories, after_calls get_categories 3 demo_world)
  ∧ after_calls get_categories 3 demo_world = demo_world
  ∧ length static_categories = 6%nat
  ∧ get "name" <$> static_categories
    = [VStr "Engine"; VStr "Braking"; VStr "Suspension";
       VStr "Electronics"; VStr "LED Lighting"; VStr "Bodywork"].
Proof. apply (get_categories_static demo_world 3). reflexivity. Defined.

(** C7. When the import of the database module fails, [signup] and [login]
    succeed for every payload with a response whose [ok] field is [True];
    the world, and with it every collection, is left unchanged, and the
    response is the same whatever the collections hold. *)
Theorem demo_auth_accepts (str_other : value → string)
    (w : World) (sp : SignUpRequest) (lp : LoginRequest) :
  db w = ImportFails →
  (∃ r, signup str_other sp w = (Ok r, w) ∧ r !! "ok" = Some (VBool true))
  ∧ (∃ r, login str_other lp w = (Ok r, w) ∧ r !! "ok" = Some (VBool true))
  ∧ (∀ w', db w' = ImportFails →
       (signup str_other sp w').1 = (signup str_other sp w).1
       ∧ (login str_other lp w').1 = (login str_other lp w).1).
Proof.
  intros H. unfold signup, login, try_import. rewrite H.
  split; [eexists; split; [reflexivity|]; by simplify_map_eq|].
  split; [eexists; split; [reflexivity|]; by simplify_map_eq|].
  intros w' H'. by rewrite H'.
Qed.

Lemma demo_auth_accepts_witness :
  (∃ r, signup str_repr (mkSignUp "Ann" "ann@example.com" "hunter2") demo_world
          = (Ok r, demo_world) ∧ r !! "ok" = Some (VBool true))
  ∧ (∃ r, login str_repr (mkLogin "ann@example.com" "hunter2") demo_world
          = (Ok r, demo_world) ∧ r !! "ok" = Some (VBool true))
  ∧ (∀ w', db w' = ImportFails →
       (signup str_repr (mkSignUp "Ann" "ann@example.com" "hunter2") w').1
       = (signup str_repr (mkSignUp "Ann" "ann@example.com" "hunter2") demo_world).1
       ∧ (login str_repr (mkLogin "ann@example.com" "hunter2") w').1
         = (login str_repr (mkLogin "ann@example.com" "hunter2") demo_world).1).
Proof.
  apply (demo_auth_accepts str_repr demo_world
           (mkSignUp "Ann" "ann@example.com" "hunter2")
           (mkLogin "ann@example.com" "hunter2")).
  reflexivity.
Defined.

(* ===================================================================== *)
(** * Categories with a reachable store                                   *)
(* ===================================================================== *)

Lemma insert_one_fresh name (d : doc) w :
  db w = DbReady → d !! "_id" = None →
  insert_one name d w
  = (Ok (VOid (next_oid w)),
     mkWorld (db w)
             (<[name := coll name w ++ [<["_id" := VOid (next_oid w)]> d]]> (store w))
             (clock w) (ticks w) (N.succ (next_oid w))).
Proof.
  intros Hdb Hid. unfold insert_one, mbind, handler_bind.
  rewrite collection_ready by done. rewrite Hid. reflexivity.
Qed.

Lemma coll_insert_eq name c w d k t o :
  coll name (mkWorld d (<[name := c]> (store w)) k t o) = c.
Proof. unfold coll. simpl. apply lookup_total_insert_eq. Qed.

Lemma seed_one_ready (s : doc) w :
  db w = DbReady → s !! "_id" = None →
  ∃ w', seed_one s w = (Ok tt, w')
    ∧ db w' = DbReady ∧ clock w' = clock w
    ∧ ticks w' = S (S (ticks w)) ∧ next_oid w' = N.succ (next_oid w)
    ∧ coll "category" w'
      = coll "category" w ++ stamp_all (clock w) (ticks w) (next_oid w) [s]
    ∧ ∀ name, name ≠ "category" → coll name w' = coll name w.
Proof.
  intros Hdb Hid. destruct w as [d st clk t o]. simpl in Hdb. subst d.
  eexists. split.
  { unfold seed_one, stamped, now, mbind, handler_bind, mret, handler_ret. simpl.
    rewrite insert_one_fresh; [reflexivity | done |].
    by rewrite !lookup_insert_ne. }
  simpl. repeat split; try done.
  - unfold coll at 1. simpl. by rewrite lookup_total_insert_eq.
  - intros name Hne. unfold coll. simpl. by rewrite lookup_total_insert_ne.
Qed.

Lemma seed_loop (l : list doc) : ∀ w,
  db w = DbReady → Forall (λ s : doc, s !! "_id" = None) l →
  ∃ w', for_each l seed_one w = (Ok tt, w')
    ∧ db w' = DbReady ∧ clock w' = clock w
    ∧ ticks w' = (ticks w + 2 * length l)%nat
    ∧ next_oid w' = (next_oid w + N.of_nat (length l))%N
    ∧ coll "category" w'
      = coll "category" w ++ stamp_all (clock w) (ticks w) (next_oid w) l
    ∧ ∀ name, name ≠ "category" → coll name w' = coll name w.
Proof.
  induction l as [|s l IH]; intros w Hdb Hl.
  - exists w. simpl. rewrite app_nil_r. repeat split; try done; lia.
  - apply Forall_cons in Hl as [Hs Hl].
    destruct (seed_one_ready s w Hdb Hs) as (w1 & E1 & Hdb1 & Hc1 & Ht1 & Ho1 & Hcat1 & Hoth1).
    destruct (IH w1 Hdb1 Hl) as (w2 & E2 & Hdb2 & Hc2 & Ht2 & Ho2 & Hcat2 & Hoth2).
    exists w2. split.
    { simpl. unfold mbind, handler_bind. by rewrite E1. }
    repeat split; try done.
    + congruence.
    + rewrite Ht2, Ht1. simpl. lia.
    + rewrite Ho2, Ho1. simpl length. lia.
    + rewrite Hcat2, Hcat1, Hc1, Ht1, Ho1. simpl. by rewrite <- app_assoc.
    + intros name Hne. rewrite Hoth2, Hoth1; done.
Qed.

Lemma seed_has_no_id : Forall (λ s : doc, s !! "_id" = None) seed.
Proof. repeat constructor. Qed.

Lemma category_out_stamp (s : doc) created updated i :
  category_out (<["_id" := i]> (<["updated_at" := updated]> (<["created_at" := created]> s)))
  = category_out s.
Proof. unfold category_out, get. by rewrite !lookup_insert_ne. Qed.

Lemma category_out_stamp_all clk (l : list doc) : ∀ t o,
  category_out <$> stamp_all clk t o l = category_out <$> l.
Proof.
  induction l as [|s l IH]; intros t o; simpl; [done|].
  by rewrite category_out_stamp, IH.
Qed.

Lemma category_out_seed : category_out <$> seed = seed.
Proof. vm_compute. reflexivity. Qed.

Lemma length_stamp_all clk (l : list doc) : ∀ t o,
  length (stamp_all clk t o l) = length l.
Proof. induction l as [|s l IH]; intros t o; simpl; [done|]. by rewrite IH. Qed.

(** With a reachable store whose category collection holds something,
    [get_categories] projects the collection and writes nothing. *)
Lemma get_categories_nonempty w :
  db w = DbReady → coll "category" w ≠ [] →
  get_categories w = (Ok (category_out <$> coll "category" w), w).
Proof.
  intros Hdb Hne. unfold get_categories, try_import. rewrite Hdb.
  unfold mbind, handler_bind. rewrite find_ready by done.
  rewrite filter_matches_empty.
  destruct (coll "category" w) as [|c cs] eqn:E; [done|]. reflexivity.
Qed.

(** With a reachable store whose category collection is empty,
    [get_categories] stores the six stamped seed rows and returns them. *)
Lemma get_categories_empty w :
  db w = DbReady → coll "category" w = [] →
  ∃ w', get_categories w = (Ok seed, w')
    ∧ db w' = DbReady ∧ clock w' = clock w
    ∧ ticks w' = (ticks w + 12)%nat ∧ next_oid w' = (next_oid w + 6)%N
    ∧ coll "category" w' = stamp_all (clock w) (ticks w) (next_oid w) seed
    ∧ ∀ name, name ≠ "category" → coll name w' = coll name w.
Proof.
  intros Hdb Hempty.
  destruct (seed_loop seed w Hdb seed_has_no_id)
    as (w' & E & Hdb' & Hc & Ht & Ho & Hcat & Hoth).
  rewrite Hempty, app_nil_l in Hcat.
  exists w'. split.
  { unfold get_categories, try_import. rewrite Hdb.
    unfold mbind at 1, handler_bind at 1. rewrite find_ready by done.
    rewrite filter_matches_empty, Hempty.
    unfold mbind at 1, handler_bind at 1.
    unfold mbind at 1, handler_bind at 1.
    rewrite E. rewrite find_ready by done.
    rewrite filter_matches_empty, Hcat.
    unfold mret, handler_ret.
    by rewrite category_out_stamp_all, category_out_seed. }
  repeat split; done.
Qed.

Lemma stamp_all_stamped clk (l : list doc) : ∀ t o,
  Forall (λ d : doc, ∃ created updated i,
            d !! "created_at" = Some (VDate created)
            ∧ d !! "updated_at" = Some (VDate updated)
            ∧ d !! "_id" = Some (VOid i))
         (stamp_all clk t o l).
Proof.
  induction l as [|s l IH]; intros t o; simpl; constructor; [|by apply IH].
  exists (clk t), (clk (S t)), o. by simplify_map_eq.
Qed.

Lemma seed_shape : Forall (λ r : doc, dom r = category_keys) seed.
Proof. repeat constructor; vm_compute; reflexivity. Qed.

(** C2. With a reachable store whose category collection is empty, the
    first call of [get_categories] stores exactly six documents, the seed
    rows each with an identifier and the datetimes [created_at] and
    [updated_at], and returns them projected to name, slug, description and
    icon. A second call, on the collection that is now not empty, returns
    the same six records and changes nothing. *)
Theorem get_categories_seeds_once (w : World) :
  db w = DbReady → coll "category" w = [] →
  ∃ w1,
    get_categories w = (Ok seed, w1)
    ∧ length (coll "category" w1) = 6%nat
    ∧ coll "category" w1 = stamp_all (clock w) (ticks w) (next_oid w) seed
    ∧ Forall (λ d : doc, ∃ created updated i,
                d !! "created_at" = Some (VDate created)
                ∧ d !! "updated_at" = Some (VDate updated)
                ∧ d !! "_id" = Some (VOid i))
             (coll "category" w1)
    ∧ category_out <$> coll "category" w1 = seed
    ∧ Forall (λ r : doc, dom r = category_keys) seed
    ∧ (∀ name, name ≠ "category" → coll name w1 = coll name w)
    ∧ get_categories w1 = (Ok seed, w1).
Proof.
  intros Hdb Hempty.
  destruct (get_categories_empty w Hdb Hempty)
    as (w1 & E & Hdb1 & _ & _ & _ & Hcat & Hoth).
  assert (category_out <$> coll "category" w1 = seed) as Hout.
  { by rewrite Hcat, category_out_stamp_all, category_out_seed. }
  exists w1. split; [done|].
  split; [by rewrite Hcat, length_stamp_all|].
  split; [done|].
  split; [rewrite Hcat; apply stamp_all_stamped|].
  split; [done|]. split; [apply seed_shape|]. split; [done|].
  rewrite get_categories_nonempty; [by rewrite Hout | done |].
  rewrite Hcat. discriminate.
Qed.

Lemma get_categories_seeds_once_witness :
  ∃ w1,
    get_categories empty_world = (Ok seed, w1)
    ∧ length (coll "category" w1) = 6%nat
    ∧ coll "category" w1
      = stamp_all (clock empty_world) (ticks empty_world) (next_oid empty_world) seed
    ∧ Forall (λ d : doc, ∃ created updated i,
                d !! "created_at" = Some (VDate created)
                ∧ d !! "updated_at" = Some (VDate updated)
                ∧ d !! "_id" = Some (VOid i))
             (coll "category" w1)
    ∧ category_out <$> coll "category" w1 = seed
    ∧ Forall (λ r : doc, dom r = category_keys) seed
    ∧ (∀ name, name ≠ "category" → coll name w1 = coll name empty_world)
    ∧ get_categories w1 = (Ok seed, w1).
Proof. apply (get_categories_seeds_once empty_world); reflexivity. Defined.

(** C10. With a reachable store, a call of [get_categories] returns (with a
    list of rows), the category collection is not empty afterwards, and a
    category collection that was not empty when the call started is left as
    it was, as is the rest of the world. *)
Theorem get_categories_keeps_nonempty (w w' : World) (r : outcome (list doc)) :
  db w = DbReady → get_categories w = (r, w') →
  (∃ rows, r = Ok rows)
  ∧ coll "category" w' ≠ []
  ∧ (coll "category" w ≠ [] → w' = w).
Proof.
  intros Hdb E. destruct (coll "category" w) as [|c cs] eqn:Hc.
  - destruct (get_categories_empty w Hdb Hc) as (w1 & E1 & _ & _ & _ & _ & Hcat & _).
    rewrite E1 in E. injection E as <- <-.
    split; [by eexists|]. split; [|done]. rewrite Hcat. discriminate.
  - rewrite get_categories_nonempty in E; [|done|by rewrite Hc].
    injection E as <- <-. split; [by eexists|]. split; [by rewrite Hc | done].
Qed.

Lemma get_categories_keeps_nonempty_witness :
  (∃ rows, (get_categories empty_world).1 = Ok rows)
  ∧ coll "category" (get_categories empty_world).2 ≠ []
  ∧ (coll "category" empty_world ≠ [] → (get_categories empty_world).2 = empty_world).
Proof.
  apply (get_categories_keeps_nonempty empty_world
           (get_categories empty_world).2 (get_categories empty_world).1).
  - reflexivity.
  - apply surjective_pairing.
Defined.

(* ===================================================================== *)
(** * Products                                                            *)
(* ===================================================================== *)

Lemma list_products_demo str_other category limit w :
  db w = ImportFails →
  list_products str_other category limit w
  = (Ok (demo_product_out <$> slice_to limit (matching category w)), w).
Proof.
  intros H. unfold list_products, try_import, matching, candidates.
  rewrite H. by destruct (provided category).
Qed.

Lemma list_products_ready str_other category limit w :
  db w = DbReady →
  list_products str_other category limit w
  = (Ok (product_out str_other <$> cursor_limit limit (matching category w)), w).
Proof.
  intros H. unfold list_products, try_import, matching, candidates. rewrite H.
  unfold mbind, handler_bind, fmap at 1, handler_fmap.
  rewrite find_ready by done. unfold mret, handler_ret. do 4 f_equal.
  destruct (provided category) as [c|].
  - rewrite insert_empty. apply filter_ext. intros d. apply matches_singleton.
  - apply filter_matches_empty.
Qed.





Lemma cursor_limit_elem (n : Z) (c : list doc) d : d ∈ cursor_limit n c → d ∈ c.
Proof.
  unfold cursor_limit. destruct (n =? 0); [done|]. apply subseteq_take.
Qed.

Lemma matching_candidates category w d : d ∈ matching category w → d ∈ candidates w.
Proof.
  unfold matching. destruct (provided category); [|done].
  intros [H _]%list_elem_of_In%filter_In. by apply list_elem_of_In.
Qed.






Lemma product_out_shape str_other (d : doc) : dom (product_out str_other d) = product_keys.
Proof.
  unfold product_out, product_keys. rewrite !dom_insert_L, dom_singleton_L.
  set_solver.
Qed.

(** C8. With a reachable store, every record [list_products] returns is the
    projection of a document of the product collection to exactly the keys
    id, title, description, price, category, in_stock and image_url: [id] is
    [str] of the document's [_id] (for an ObjectId, its 24 hexadecimal
    digits), the other fields are those of the document, and [in_stock] is
    [True] when the document has no such field. *)
Theorem list_products_public_shape
    (str_other : value → string) (w : World) (category : option string)
    (limit : Z) (rows : list doc) (r : doc) :
  db w = DbReady →
  (list_products str_other category limit w).1 = Ok rows →
  r ∈ rows →
    ∃ d, d ∈ coll "product" w
      ∧ r = product_out str_other d
      ∧ dom r = product_keys
      ∧ r !! "id" = Some (VStr (py_str str_other (get "_id" d)))
      ∧ (∀ o, d !! "_id" = Some (VOid o) → r !! "id" = Some (VStr (oid_hex o)))
      ∧ r !! "title" = Some (get "title" d)
      ∧ r !! "description" = Some (get "description" d)
      ∧ r !! "price" = Some (get "price" d)
      ∧ r !! "category" = Some (get "category" d)
      ∧ r !! "image_url" = Some (get "image_url" d)
      ∧ (d !! "in_stock" = None → r !! "in_stock" = Some (VBool true))
      ∧ (∀ v, d !! "in_stock" = Some v → r !! "in_stock" = Some v).
Proof.
  intros Hdb E Hr. rewrite list_products_ready in E by done.
  simpl in E. injection E as <-.
  apply list_elem_of_fmap in Hr as (d & -> & Hd).
  exists d. split.
  { apply cursor_limit_elem, matching_candidates in Hd.
    unfold candidates in Hd. by rewrite Hdb in Hd. }
  split; [done|]. split; [apply product_out_shape|].
  unfold product_out, get, get_default.
  repeat split; try (by simplify_map_eq).
  - intros o Ho. rewrite Ho. by simplify_map_eq.
  - intros ->. by simplify_map_eq.
  - intros v ->. by simplify_map_eq.
Qed.

Lemma list_products_public_shape_witness :
  ∃ d, d ∈ coll "product" shop_world
    ∧ product_out str_repr (sample_products !!! 0%nat) = product_out str_repr d
    ∧ dom (product_out str_repr (sample_products !!! 0%nat)) = product_keys
    ∧ product_out str_repr (sample_products !!! 0%nat) !! "id"
      = Some (VStr (py_str str_repr (get "_id" d)))
    ∧ (∀ o, d !! "_id" = Some (VOid o) →
         product_out str_repr (sample_products !!! 0%nat) !! "id"
         = Some (VStr (oid_hex o)))
    ∧ product_out str_repr (sample_products !!! 0%nat) !! "title"
      = Some (get "title" d)
    ∧ product_out str_repr (sample_products !!! 0%nat) !! "description"
      = Some (get "description" d)
    ∧ product_out str_repr (sample_products !!! 0%nat) !! "price"
      = Some (get "price" d)
    ∧ product_out str_repr (sample_products !!! 0%nat) !! "category"
      = Some (get "category" d)
    ∧ product_out str_repr (sample_products !!! 0%nat) !! "image_url"
      = Some (get "image_url" d)
    ∧ (d !! "in_stock" = None →
         product_out str_repr (sample_products !!! 0%nat) !! "in_stock"
         = Some (VBool true))
    ∧ (∀ v, d !! "in_stock" = Some v →
         product_out str_repr (sample_products !!! 0%nat) !! "in_stock" = Some v).
Proof.
  apply (list_products_public_shape str_repr shop_world (Some "engine") 12
           [product_out str_repr (sample_products !!! 0%nat)]).
  - reflexivity.
  - vm_compute. reflexivity.
  - left.
Defined.

(* ===================================================================== *)
(** * Signup and login with a reachable store                             *)
(* ===================================================================== *)

Lemma find_one_email email w :
  db w = DbReady →
  find_one "user" {[ "email" := email ]} w = (Ok (user_with_email email w), w).
Proof.
  intros H. rewrite find_one_ready by done. unfold user_with_email.
  do 3 f_equal. apply filter_ext. intros d. apply matches_singleton.
Qed.

Lemma user_with_email_Some email w u :
  user_with_email email w = Some u →
  u ∈ coll "user" w ∧ get "email" u = VStr email ∧ truthy_doc (Some u) = true.
Proof.
  unfold user_with_email. intros H. apply head_Some in H as [l' Hl].
  assert (In u (List.filter (λ d, eq_str (get "email" d) email) (coll "user" w)))
    as [Hin Hm]%filter_In by (rewrite Hl; by left).
  split; [by apply list_elem_of_In|].
  split; [by apply eq_str_true | by eapply truthy_of_field].
Qed.

Lemma user_with_email_None email w :
  user_with_email email w = None ↔
  ∀ d, d ∈ coll "user" w → get "email" d ≠ VStr email.
Proof.
  unfold user_with_email. split.
  - intros H d Hd Hk. apply head_None in H.
    assert (In d (List.filter (λ d, eq_str (get "email" d) email) (coll "user" w)))
      as Hin.
    { apply filter_In. split; [by apply list_elem_of_In | by apply eq_str_true]. }
    rewrite H in Hin. destruct Hin.
  - intros H. induction (coll "user" w) as [|d c IH]; simpl; [done|].
    destruct (eq_str (get "email" d) email) eqn:E.
    + apply eq_str_true in E. exfalso. eapply H; [left | done].
    + apply IH. intros d' Hd'. apply H. by right.
Qed.

(** When one user only carries the email, the lookup yields that user. *)
Lemma user_with_email_unique email w u :
  u ∈ coll "user" w → get "email" u = VStr email →
  (∀ u', u' ∈ coll "user" w → get "email" u' = VStr email → u' = u) →
  user_with_email email w = Some u.
Proof.
  intros Hu He Huniq.
  destruct (user_with_email email w) as [u'|] eqn:E.
  - apply user_with_email_Some in E as (Hin & Hem & _).
    f_equal. by apply Huniq.
  - exfalso. eapply user_with_email_None in E; [|exact Hu]. done.
Qed.

Lemma signup_duplicate str_other payload w u :
  db w = DbReady → user_with_email (su_email payload) w = Some u →
  signup str_other payload w = (Raised duplicate_email, w).
Proof.
  intros Hdb Hu. unfold signup, try_import. rewrite Hdb.
  unfold mbind, handler_bind. rewrite find_one_email by done. rewrite Hu.
  apply user_with_email_Some in Hu as (_ & _ & ->). reflexivity.
Qed.

Lemma signup_fresh str_other payload w :
  db w = DbReady → user_with_email (su_email payload) w = None →
  signup str_other payload w
  = (Ok {[ "ok" := VBool true; "user_id" := VStr (oid_hex (next_oid w)) ]},
     mkWorld DbReady
       (<["user" := coll "user" w
                    ++ [user_doc payload (clock w (ticks w)) (clock w (S (ticks w)))
                                 (next_oid w)]]> (store w))
       (clock w) (S (S (ticks w))) (N.succ (next_oid w))).
Proof.
  intros Hdb Hu. unfold signup, try_import. rewrite Hdb.
  unfold mbind at 1, handler_bind at 1. rewrite find_one_email by done.
  rewrite Hu. simpl truthy_doc. cbv iota.
  destruct w as [d st clk t o]. simpl in Hdb. subst d.
  unfold now, mbind, handler_bind, mret, handler_ret. simpl.
  rewrite insert_one_fresh; [reflexivity | done | by simplify_map_eq].
Qed.

Lemma login_ready str_other payload w :
  db w = DbReady →
  login str_other payload w
  = match user_with_email (li_email payload) w with
    | None => (Raised invalid_credentials, w)
    | Some u =>
        if eq_str (get "password_hash" u) (hash_password (li_password payload))
        then (Ok {[ "ok" := VBool true;
                    "user_id" := VStr (py_str str_other (get "_id" u));
                    "name" := get "name" u ]}, w)
        else (Raised invalid_credentials, w)
    end.
Proof.
  intros Hdb. unfold login, try_import. rewrite Hdb.
  unfold mbind, handler_bind. rewrite find_one_email by done.
  destruct (user_with_email (li_email payload) w) as [u|] eqn:E; [|reflexivity].
  apply user_with_email_Some in E as (_ & _ & ->). simpl.
  by destruct (eq_str _ _).
Qed.

Lemma user_doc_email payload created updated o :
  get "email" (user_doc payload created updated o) = VStr (su_email payload).
Proof. unfold user_doc, get. by simplify_map_eq. Qed.




(** The two calls of C4 on the empty store. *)
Example signup_ann_twice :
  user_with_email (su_email ann) empty_world = None
  ∧ (signup str_repr ann empty_world).1
    = Ok {[ "ok" := VBool true; "user_id" := VStr "000000000000000000000000" ]}
  ∧ (signup str_repr ann (signup str_repr ann empty_world).2).1
    = Raised (HTTPException 400 "Email already registered")
  ∧ coll "user" (signup str_repr ann (signup str_repr ann empty_world).2).2
    = coll "user" (signup str_repr ann empty_world).2.
Proof. vm_compute. repeat split. Qed.

(** C5. With a reachable store, [login] fails with the error 401 "Invalid
    credentials" when no user record has the email, and when the record the
    lookup by email yields has a stored [password_hash] other than the hash
    of the supplied password; when that record's stored hash is the hash of
    the supplied password, [login] succeeds and returns the record's name
    and the string of its [_id]. The world is unchanged in every case. The
    record the lookup yields is the only user with the email when emails are
    unique. *)
Theorem login_checks_credentials
    (str_other : value → string) (w : World) (payload : LoginRequest) :
  db w = DbReady →
  ((∀ d, d ∈ coll "user" w → get "email" d ≠ VStr (li_email payload)) →
     login str_other payload w = (Raised (HTTPException 401 "Invalid credentials"), w))
  ∧ (∀ u, user_with_email (li_email payload) w = Some u →
       get "password_hash" u ≠ VStr (hash_password (li_password payload)) →
       login str_other payload w
       = (Raised (HTTPException 401 "Invalid credentials"), w))
  ∧ (∀ u, user_with_email (li_email payload) w = Some u →
       get "password_hash" u = VStr (hash_password (li_password payload)) →
       login str_other payload w
       = (Ok {[ "ok" := VBool true;
                "user_id" := VStr (py_str str_other (get "_id" u));
                "name" := get "name" u ]}, w))
  ∧ (∀ u, u ∈ coll "user" w → get "email" u = VStr (li_email payload) →
       (∀ u', u' ∈ coll "user" w → get "email" u' = VStr (li_email payload) → u' = u) →
       user_with_email (li_email payload) w = Some u).
Proof.
  intros Hdb. rewrite login_ready by done. repeat split.
  - intros Hnone%user_with_email_None. by rewrite Hnone.
  - intros u -> Hne.
    destruct (eq_str _ _) eqn:E; [|done]. by apply eq_str_true in E.
  - intros u -> He. apply eq_str_true in He. by rewrite He.
  - intros u. apply user_with_email_unique.
Qed.

Lemma login_checks_credentials_witness :
  ((∀ d, d ∈ coll "user" ann_world → get "email" d ≠ VStr "ann@example.com") →
     login str_repr (mkLogin "ann@example.com" "hunter2") ann_world
     = (Raised (HTTPException 401 "Invalid credentials"), ann_world))
  ∧ (∀ u, user_with_email "ann@example.com" ann_world = Some u →
       get "password_hash" u ≠ VStr (hash_password "hunter2") →
       login str_repr (mkLogin "ann@example.com" "hunter2") ann_world
       = (Raised (HTTPException 401 "Invalid credentials"), ann_world))
  ∧ (∀ u, user_with_email "ann@example.com" ann_world = Some u →
       get "password_hash" u = VStr (hash_password "hunter2") →
       login str_repr (mkLogin "ann@example.com" "hunter2") ann_world
       = (Ok {[ "ok" := VBool true;
                "user_id" := VStr (py_str str_repr (get "_id" u));
                "name" := get "name" u ]}, ann_world))
  ∧ (∀ u, u ∈ coll "user" ann_world → get "email" u = VStr "ann@example.com" →
       (∀ u', u' ∈ coll "user" ann_world → get "email" u' = VStr "ann@example.com" → u' = u) →
       user_with_email "ann@example.com" ann_world = Some u).
Proof.
  apply (login_checks_credentials str_repr ann_world (mkLogin "ann@example.com" "hunter2")).
  reflexivity.
Defined.

(** The three cases of C5 on the store that holds Ann. *)
Example login_ann_correct :
  (login str_repr (mkLogin "ann@example.com" "hunter2") ann_world).1
  = Ok {[ "ok" := VBool true; "user_id" := VStr "000000000000000000000000";
          "name" := VStr "Ann" ]}.
Proof. vm_compute. reflexivity. Qed.

Example login_ann_wrong_password :
  (login str_repr (mkLogin "ann@example.com" "hunter3") ann_world).1
  = Raised (HTTPException 401 "Invalid credentials").
Proof. vm_compute. reflexivity. Qed.

Example login_unknown_email :
  (login str_repr (mkLogin "bob@example.com" "hunter2") ann_world).1
  = Raised (HTTPException 401 "Invalid credentials").
Proof. vm_compute. reflexivity. Qed.

Example signup_ann_stores_ann :
  coll "user" (signup str_repr ann empty_world).2 = coll "user" ann_world.
Proof. vm_compute. reflexivity. Qed.



(* ===================================================================== *)
(** * The password hash is a function into 256 bits                       *)
(* ===================================================================== *)















Example hash_password_differs :
  hash_password "hunter2" ≠ hash_password "hunter3".
Proof. vm_compute. discriminate. Qed.

(* ===================================================================== *)
(** * The diagnostic endpoint                                             *)
(* ===================================================================== *)

Lemma probe_database_url_name i (response : gmap string diag_value) v1 v2 :
  <["database_name" := v2]> (<["database_url" := v1]> (probe_database i response))
    !! "database_url" = Some v1
  ∧ <["database_name" := v2]> (<["database_url" := v1]> (probe_database i response))
    !! "database_name" = Some v2.
Proof. by simplify_map_eq. Qed.

(** [test_database]: the fields [database_url] and [database_name] of the
    response tell whether the environment variables [DATABASE_URL] and
    [DATABASE_NAME] are set to a string that is not empty, and nothing else:
    what the [try] block wrote to them (a mark, or the name of the
    database) is overwritten, so the two fields do not depend on the import
    or on the database. *)
Theorem test_database_env_only (i i' : import_outcome) (environ : gmap string string)
    (k : string) (var : string) :
  (k = "database_url" ∧ var = "DATABASE_URL")
  ∨ (k = "database_name" ∧ var = "DATABASE_NAME") →
  test_database i environ !! k = test_database i' environ !! k
  ∧ (∀ v, environ !! var = Some v → v ≠ "" →
       test_database i environ !! k = Some (DStr "✅ Set"))
  ∧ (environ !! var = None ∨ environ !! var = Some "" →
       test_database i environ !! k = Some (DStr "❌ Not Set")).
Proof.
  assert (∀ j, test_database j environ !! "database_url"
               = Some (env_status environ "DATABASE_URL")
             ∧ test_database j environ !! "database_name"
               = Some (env_status environ "DATABASE_NAME")) as Hfields.
  { intros j. apply probe_database_url_name. }
  intros [[-> ->]|[-> ->]].
  - rewrite !(proj1 (Hfields _)). split; [done|]. unfold env_status. split.
    + intros v -> Hv. simpl. by rewrite bool_decide_eq_false_2.
    + by intros [->| ->].
  - rewrite !(proj2 (Hfields _)). split; [done|]. unfold env_status. split.
    + intros v -> Hv. simpl. by rewrite bool_decide_eq_false_2.
    + by intros [->| ->].
Qed.

Lemma test_database_env_only_witness :
  test_database (Binds (Some working_handle)) {[ "DATABASE_URL" := "mongodb://db" ]}
    !! "database_url"
  = test_database RaisesImportError {[ "DATABASE_URL" := "mongodb://db" ]}
      !! "database_url"
  ∧ (∀ v, ({[ "DATABASE_URL" := "mongodb://db" ]} : gmap string string)
            !! "DATABASE_URL" = Some v → v ≠ "" →
       test_database (Binds (Some working_handle)) {[ "DATABASE_URL" := "mongodb://db" ]}
         !! "database_url" = Some (DStr "✅ Set"))
  ∧ (({[ "DATABASE_URL" := "mongodb://db" ]} : gmap string string)
       !! "DATABASE_URL" = None
     ∨ ({[ "DATABASE_URL" := "mongodb://db" ]} : gmap string string)
         !! "DATABASE_URL" = Some "" →
       test_database (Binds (Some working_handle)) {[ "DATABASE_URL" := "mongodb://db" ]}
         !! "database_url" = Some (DStr "❌ Not Set")).
Proof.
  apply (test_database_env_only (Binds (Some working_handle)) RaisesImportError
           {[ "DATABASE_URL" := "mongodb://db" ]} "database_url" "DATABASE_URL").
  left. split; reflexivity.
Defined.

(** [test_database]: the field [collections] is a list of at most ten
    names, the first ten that [db.list_collection_names()] returned; it is
    empty when the import failed, when [db] is [None] and when the listing
    raised. *)
Theorem test_database_collections (i : import_outcome) (environ : gmap string string) :
  ∃ l, test_database i environ !! "collections" = Some (DList l)
    ∧ (length l ≤ 10)%nat
    ∧ match i with
      | Binds (Some h) =>
          match list_collection_names h with
          | Listing names => l = take 10 names
          | ListingRaises _ => l = []
          end
      | _ => l = []
      end.
Proof.
  unfold test_database, probe_database, probe_collections.
  destruct i as [|e|[h|]]; try (exists []; split; [by simplify_map_eq | split; [simpl; lia | done]]).
  destruct (list_collection_names h) as [e|names].
  - exists []. split; [by simplify_map_eq | split; [simpl; lia | done]].
  - exists (take 10 names). split; [by simplify_map_eq|].
    split; [rewrite length_take; lia | done].
Qed.

(** [test_database]: the response has the six keys of the initial
    dictionary in every case; [backend] is always the running mark;
    [connection_status] is "Connected" exactly when the import bound [db] to
    a handle, the case in which the business handlers read the store, and
    "Not Connected" otherwise; the initial [database] text is replaced in
    every case, and is the working mark exactly when the listing
    succeeded. *)
Theorem test_database_status (i : import_outcome) (environ : gmap string string) :
  dom (test_database i environ) = diag_keys
  ∧ test_database i environ !! "backend" = Some (DStr "✅ Running")
  ∧ test_database i environ !! "connection_status"
    = Some (DStr (match database_of i with
                  | DbReady => "Connected"
                  | _ => "Not Connected"
                  end))
  ∧ test_database i environ !! "database" ≠ Some (DStr "❌ Not Available")
  ∧ (test_database i environ !! "database" = Some (DStr "✅ Connected & Working")
     ↔ ∃ h names, i = Binds (Some h) ∧ list_collection_names h = Listing names).
Proof.
  unfold test_database, probe_database, probe_collections, diag_keys.
  destruct i as [|e|[h|]]; [| | destruct (list_collection_names h) as [e|names] eqn:E |].
  all: split; [rewrite !dom_insert_L; unfold initial_response;
               rewrite !dom_insert_L, dom_singleton_L; set_solver|].
  all: split; [by simplify_map_eq|].
  all: split; [by simplify_map_eq|].
  all: split; [simplify_map_eq; simpl; discriminate|].
  all: simplify_map_eq; simpl; split;
    [try discriminate | intros (h' & names' & Hi & Hl)].
  all: try discriminate Hi.
  all: try (injection Hi as <-; congruence).
  intros _. by exists h, names.
Qed.

Lemma char_count_str_take n : ∀ s,
  char_count (str_take n s) = Nat.min n (char_count s).
Proof.
  intros s. revert n. induction s as [|c s IH]; intros n; simpl.
  - lia.
  - destruct (is_continuation c) eqn:E; simpl; rewrite ?E.
    + apply IH.
    + destruct n as [|n]; simpl; rewrite ?E; [done|]. by rewrite IH.
Qed.

Lemma str_take_prefix n : ∀ s, ∃ rest, s = str_take n s +:+ rest.
Proof.
  intros s. revert n. induction s as [|c s IH]; intros n; simpl.
  - by exists "".
  - destruct (is_continuation c).
    + destruct (IH n) as [rest Hr]. exists rest.
      transitivity (String c (str_take n s +:+ rest)); [by f_equal | reflexivity].
    + destruct n as [|n]; [by eexists|].
      destruct (IH n) as [rest Hr]. exists rest.
      transitivity (String c (str_take n s +:+ rest)); [by f_equal | reflexivity].
Qed.

Lemma str_take_all n : ∀ s, (char_count s ≤ n)%nat → str_take n s = s.
Proof.
  intros s. revert n. induction s as [|c s IH]; intros n; simpl; [done|].
  destruct (is_continuation c).
  - intros H. by rewrite IH.
  - destruct n as [|n]; [lia|]. intros H. rewrite IH; [done | lia].
Qed.

(** [test_database]: when the import raises an exception other than
    [ImportError], or the listing of the collections raises, the [database]
    field is a fixed label followed by the first 50 characters of the text
    of the exception: a prefix of the text, the whole of it when it has at
    most 50 characters. *)
Theorem test_database_error_text (i : import_outcome) (environ : gmap string string)
    (e : string) :
  i = RaisesException e
  ∨ (∃ h, i = Binds (Some h) ∧ list_collection_names h = ListingRaises e) →
  ∃ label shown,
    test_database i environ !! "database" = Some (DStr (label +:+ shown))
    ∧ (label = "❌ Error: " ∨ label = "⚠️  Connected but Error: ")
    ∧ char_count shown = Nat.min 50 (char_count e)
    ∧ (∃ rest, e = shown +:+ rest)
    ∧ ((char_count e ≤ 50)%nat → shown = e).
Proof.
  intros [->|(h & -> & Hl)].
  - exists "❌ Error: ", (str_take 50 e).
    split; [unfold test_database, probe_database; by simplify_map_eq|].
    split; [by left|]. split; [apply char_count_str_take|].
    split; [apply str_take_prefix | apply str_take_all].
  - exists "⚠️  Connected but Error: ", (str_take 50 e).
    split; [unfold test_database, probe_database, probe_collections;
            rewrite Hl; by simplify_map_eq|].
    split; [by right|]. split; [apply char_count_str_take|].
    split; [apply str_take_prefix | apply str_take_all].
Qed.

Lemma test_database_error_text_witness :
  ∃ label shown,
    test_database (Binds (Some failing_handle)) ∅ !! "database"
    = Some (DStr (label +:+ shown))
    ∧ (label = "❌ Error: " ∨ label = "⚠️  Connected but Error: ")
    ∧ char_count shown = Nat.min 50 (char_count "connection refused")
    ∧ (∃ rest, "connection refused" = shown +:+ rest)
    ∧ ((char_count "connection refused" ≤ 50)%nat → shown = "connection refused").
Proof.
  apply (test_database_error_text (Binds (Some failing_handle)) ∅ "connection refused").
  right. exists failing_handle. split; reflexivity.
Defined.


(* ===================================================================== *)
(** * The handlers when [db] is [None]                                    *)
(* ===================================================================== *)

Lemma collection_none name w :
  db w = DbIsNone → collection name w = (Raised not_subscriptable, w).
Proof. intros H. unfold collection. by rewrite H. Qed.

Lemma get_categories_none w :
  db w = DbIsNone → get_categories w = (Raised not_subscriptable, w).
Proof.
  intros H. unfold get_categories, try_import. rewrite H.
  unfold find, mbind, handler_bind. by rewrite collection_none.
Qed.

Lemma list_products_none str_other category limit w :
  db w = DbIsNone →
  list_products str_other category limit w = (Raised not_subscriptable, w).
Proof.
  intros H. unfold list_products, try_import. rewrite H.
  unfold find, mbind, handler_bind, fmap, handler_fmap.
  by rewrite collection_none.
Qed.

Lemma signup_none str_other payload w :
  db w = DbIsNone → signup str_other payload w = (Raised not_subscriptable, w).
Proof.
  intros H. unfold signup, try_import. rewrite H.
  unfold find_one, mbind, handler_bind. by rewrite collection_none.
Qed.

Lemma login_none str_other payload w :
  db w = DbIsNone → login str_other payload w = (Raised not_subscriptable, w).
Proof.
  intros H. unfold login, try_import. rewrite H.
  unfold find_one, mbind, handler_bind. by rewrite collection_none.
Qed.

(** When the import succeeds but binds [db] to [None], no handler falls
    back to its demo answer: each of the four fails on [db[...]] with a
    [TypeError], and leaves the world as it is. *)
Theorem handlers_fail_without_db
    (str_other : value → string) (w : World) (category : option string)
    (limit : Z) (sp : SignUpRequest) (lp : LoginRequest) :
  db w = DbIsNone →
  get_categories w
    = (Raised (TypeError "'NoneType' object is not subscriptable"), w)
  ∧ list_products str_other category limit w
    = (Raised (TypeError "'NoneType' object is not subscriptable"), w)
  ∧ signup str_other sp w
    = (Raised (TypeError "'NoneType' object is not subscriptable"), w)
  ∧ login str_other lp w
    = (Raised (TypeError "'NoneType' object is not subscriptable"), w).
Proof.
  intros H. split; [by apply get_categories_none|].
  split; [by apply list_products_none|].
  split; [by apply signup_none | by apply login_none].
Qed.

Lemma handlers_fail_without_db_witness :
  get_categories uninitialised_world
    = (Raised (TypeError "'NoneType' object is not subscriptable"), uninitialised_world)
  ∧ list_products str_repr (Some "engine") 12 uninitialised_world
    = (Raised (TypeError "'NoneType' object is not subscriptable"), uninitialised_world)
  ∧ signup str_repr ann uninitialised_world
    = (Raised (TypeError "'NoneType' object is not subscriptable"), uninitialised_world)
  ∧ login str_repr (mkLogin "ann@example.com" "hunter2") uninitialised_world
    = (Raised (TypeError "'NoneType' object is not subscriptable"), uninitialised_world).
Proof.
  apply (handlers_fail_without_db str_repr uninitialised_world (Some "engine") 12
           ann (mkLogin "ann@example.com" "hunter2")).
  reflexivity.
Defined.

(* ===================================================================== *)
(** * What the handlers write                                             *)
(* ===================================================================== *)

(** [list_products] and [login] only read: whatever the import gave and
    whatever they return or raise, the world after the call is the world
    before it. *)
Theorem list_products_and_login_read_only
    (str_other : value → string) (w : World) (category : option string)
    (limit : Z) (payload : LoginRequest) :
  (list_products str_other category limit w).2 = w
  ∧ (login str_other payload w).2 = w.
Proof.
  destruct (db w) eqn:Hdb.
  - rewrite list_products_demo by done. split; [done|].
    unfold login, try_import. by rewrite Hdb.
  - rewrite list_products_none, login_none by done. done.
  - rewrite list_products_ready, login_ready by done. split; [done|].
    destruct (user_with_email _ _); [|done]. by destruct (eq_str _ _).
Qed.

Lemma coll_insert_other name name' c w d k t o :
  name ≠ name' →
  coll name' (mkWorld d (<[name := c]> (store w)) k t o) = coll name' w.
Proof. intros H. unfold coll. simpl. by apply lookup_total_insert_ne. Qed.

(** The four ways a call of [signup] can go. *)
Lemma signup_outcomes str_other payload w :
  (∃ r, signup str_other payload w = (Ok r, w) ∧ db w = ImportFails)
  ∨ (∃ e, signup str_other payload w = (Raised e, w))
  ∨ (db w = DbReady
     ∧ user_with_email (su_email payload) w = None
     ∧ signup str_other payload w
       = (Ok {[ "ok" := VBool true; "user_id" := VStr (oid_hex (next_oid w)) ]},
          mkWorld DbReady
            (<["user" := coll "user" w
                         ++ [user_doc payload (clock w (ticks w))
                                      (clock w (S (ticks w))) (next_oid w)]]> (store w))
            (clock w) (S (S (ticks w))) (N.succ (next_oid w)))).
Proof.
  destruct (db w) eqn:Hdb.
  - left. unfold signup, try_import. rewrite Hdb. by eexists.
  - right; left. eexists. by apply signup_none.
  - destruct (user_with_email (su_email payload) w) as [u|] eqn:Hu.
    + right; left. eexists. by eapply signup_duplicate.
    + right; right. split; [done|]. split; [done|]. by apply signup_fresh.
Qed.

Lemma user_doc_fields payload created updated o :
  get "password_hash" (user_doc payload created updated o)
    = VStr (hash_password (su_password payload))
  ∧ get "name" (user_doc payload created updated o) = VStr (su_name payload)
  ∧ get "_id" (user_doc payload created updated o) = VOid o
  ∧ user_doc payload created updated o !! "password" = None.
Proof. unfold user_doc, get. by simplify_map_eq. Qed.

(** [signup] writes to the user collection only, and at most one record:
    the other collections, the outcome of the import and the clock are as
    before; the user collection is as before or has one more record at its
    end, which carries the email of the payload and the hash of its
    password, and no field with the password itself; a call that raises
    changes nothing. *)
Theorem signup_writes_one_user
    (str_other : value → string) (w : World) (payload : SignUpRequest) :
  db (signup str_other payload w).2 = db w
  ∧ clock (signup str_other payload w).2 = clock w
  ∧ (∀ name, name ≠ "user" →
       coll name (signup str_other payload w).2 = coll name w)
  ∧ (coll "user" (signup str_other payload w).2 = coll "user" w
     ∨ ∃ d, coll "user" (signup str_other payload w).2 = coll "user" w ++ [d]
          ∧ get "email" d = VStr (su_email payload)
          ∧ get "password_hash" d = VStr (hash_password (su_password payload))
          ∧ d !! "password" = None)
  ∧ (∀ e, (signup str_other payload w).1 = Raised e →
       (signup str_other payload w).2 = w).
Proof.
  destruct (signup_outcomes str_other payload w)
    as [(r & -> & _)|[(e & ->)|(Hdb & _ & ->)]]; simpl.
  - repeat split; try done. by left.
  - repeat split; try done. by left.
  - split; [done|]. split; [done|].
    split; [intros name Hne; by apply coll_insert_other|].
    split; [|discriminate].
    right. eexists. split; [by rewrite coll_insert_eq|].
    split; [apply user_doc_email|].
    split; apply user_doc_fields.
Qed.

Lemma get_categories_outcomes w :
  (∃ o, get_categories w = (o, w))
  ∨ (db w = DbReady ∧ coll "category" w = []
     ∧ ∃ w', get_categories w = (Ok seed, w')
        ∧ db w' = db w ∧ clock w' = clock w
        ∧ coll "category" w' = stamp_all (clock w) (ticks w) (next_oid w) seed
        ∧ ∀ name, name ≠ "category" → coll name w' = coll name w).
Proof.
  destruct (db w) eqn:Hdb.
  - left. eexists. by apply get_categories_demo.
  - left. eexists. by apply get_categories_none.
  - destruct (coll "category" w) as [|c cs] eqn:Hc.
    + right. split; [done|]. split; [done|].
      destruct (get_categories_empty w Hdb Hc) as (w' & E & Hdb' & Hclk & _ & _ & Hcat & Hoth).
      exists w'. repeat split; try done; congruence.
    + left. eexists. apply get_categories_nonempty; [done|]. by rewrite Hc.
Qed.

(** [get_categories] writes to the category collection only, and only by
    adding to it: the other collections, the outcome of the import and the
    clock are as before, and the documents the category collection held
    before the call are still its first documents after it. *)
Theorem get_categories_writes_categories_only (w : World) :
  db (get_categories w).2 = db w
  ∧ clock (get_categories w).2 = clock w
  ∧ (∀ name, name ≠ "category" → coll name (get_categories w).2 = coll name w)
  ∧ ∃ added, coll "category" (get_categories w).2 = coll "category" w ++ added.
Proof.
  destruct (get_categories_outcomes w)
    as [(o & ->)|(_ & Hc & w' & -> & Hdb & Hclk & Hcat & Hoth)]; simpl.
  - repeat split; try done. exists []. by rewrite app_nil_r.
  - repeat split; try done. rewrite Hc, Hcat. by eexists.
Qed.

(* ===================================================================== *)
(** * Signup, then login                                                  *)
(* ===================================================================== *)



Lemma emails_app (l1 l2 : list doc) : emails (l1 ++ l2) = emails l1 ++ emails l2.
Proof. unfold emails. apply omap_app. Qed.

Lemma emails_user_doc payload created updated o :
  emails [user_doc payload created updated o] = [su_email payload].
Proof. unfold emails. simpl. by rewrite user_doc_email. Qed.

Lemma user_with_email_None_emails email w :
  user_with_email email w = None → email ∉ emails (coll "user" w).
Proof.
  intros Hnone Hin. pose proof (proj1 (user_with_email_None _ _) Hnone) as Hno.
  clear Hnone. rename Hno into Hnone. unfold emails in Hin. apply list_elem_of_omap in Hin as (d & Hd & He).
  apply (Hnone d Hd). by destruct (get "email" d); simplify_eq.
Qed.

(** [signup] keeps the emails of the user collection distinct: when no two
    user records have the same email before a call, none have after it,
    whatever the call did. *)
Theorem signup_keeps_emails_distinct
    (str_other : value → string) (w : World) (payload : SignUpRequest) :
  NoDup (emails (coll "user" w)) →
  NoDup (emails (coll "user" (signup str_other payload w).2)).
Proof.
  intros Hnodup.
  destruct (signup_outcomes str_other payload w)
    as [(r & -> & _)|[(e & ->)|(Hdb & Hnone & ->)]]; simpl; try done.
  rewrite coll_insert_eq, emails_app, emails_user_doc.
  apply NoDup_app. split; [done|]. split; [|apply NoDup_singleton].
  intros e He ->%list_elem_of_singleton.
  by apply user_with_email_None_emails in Hnone.
Qed.

Lemma signup_keeps_emails_distinct_witness :
  NoDup (emails (coll "user"
           (signup str_repr (mkSignUp "Bob" "bob@example.com" "pw") ann_world).2)).
Proof.
  apply (signup_keeps_emails_distinct str_repr ann_world
           (mkSignUp "Bob" "bob@example.com" "pw")).
  vm_compute. apply NoDup_singleton.
Defined.

(* ===================================================================== *)
(** * More on the listings                                                *)
(* ===================================================================== *)

Lemma slice_to_all {A} (n : Z) (l : list A) :
  0 ≤ n → Z.of_nat (length l) ≤ n → slice_to n l = l.
Proof.
  intros H0 Hn. unfold slice_to. rewrite (proj2 (Z.leb_le 0 n)) by done.
  apply firstn_all2. lia.
Qed.

Lemma cursor_limit_all (n : Z) (c : list doc) :
  0 < n → Z.of_nat (length c) ≤ n → cursor_limit n c = c.
Proof.
  intros H0 Hn. unfold cursor_limit. rewrite (proj2 (Z.eqb_neq n 0)) by lia.
  apply firstn_all2. lia.
Qed.

(** A positive limit that is at least the number of matching records cuts
    nothing: [list_products] then returns the projection of every matching
    record, in the order of the demo list or of the collection. *)
Theorem list_products_limit_large_enough
    (str_other : value → string) (w : World) (category : option string) (limit : Z) :
  0 < limit →
  Z.of_nat (length (matching category w)) ≤ limit →
  (db w = ImportFails →
     list_products str_other category limit w
     = (Ok (demo_product_out <$> matching category w), w))
  ∧ (db w = DbReady →
     list_products str_other category limit w
     = (Ok (product_out str_other <$> matching category w), w)).
Proof.
  intros H0 Hlen. split; intros Hdb.
  - rewrite list_products_demo by done. rewrite slice_to_all; [done | lia | done].
  - rewrite list_products_ready by done. by rewrite cursor_limit_all.
Qed.

Lemma list_products_limit_large_enough_witness :
  (db shop_world = ImportFails →
     list_products str_repr None 12 shop_world
     = (Ok (demo_product_out <$> matching None shop_world), shop_world))
  ∧ (db shop_world = DbReady →
     list_products str_repr None 12 shop_world
     = (Ok (product_out str_repr <$> matching None shop_world), shop_world)).
Proof.
  apply (list_products_limit_large_enough str_repr shop_world None 12).
  - lia.
  - vm_compute. discriminate.
Defined.

Lemma category_out_shape (c : doc) : dom (category_out c) = category_keys.
Proof.
  unfold category_out, category_keys. rewrite !dom_insert_L, dom_singleton_L.
  set_solver.
Qed.

Lemma category_out_lookup (c : doc) k :
  k ∈ category_keys → category_out c !! k = Some (default VNone (c !! k)).
Proof.
  unfold category_keys, category_out, get. intros Hk.
  rewrite !elem_of_union, !elem_of_singleton in Hk.
  destruct Hk as [[[->| ->]| ->]| ->]; by simplify_map_eq.
Qed.

(** With a reachable store whose category collection is not empty,
    [get_categories] returns one row per stored document, in the order of
    the collection. A row has exactly the keys name, slug, description and
    icon: a field the document lacks is [None] in the row, and the other
    fields of the document (its identifier, its timestamps) are not in the
    row. *)
Theorem get_categories_rows (w : World) :
  db w = DbReady → coll "category" w ≠ [] →
  ∃ rows,
    get_categories w = (Ok rows, w)
    ∧ length rows = length (coll "category" w)
    ∧ ∀ i d, coll "category" w !! i = Some d →
        ∃ r, rows !! i = Some r
          ∧ dom r = category_keys
          ∧ (∀ k, k ∈ category_keys → r !! k = Some (default VNone (d !! k)))
          ∧ (∀ k, k ∉ category_keys → r !! k = None).
Proof.
  intros Hdb Hne. eexists. split; [by apply get_categories_nonempty|].
  split; [by rewrite length_fmap|].
  intros i d Hd. exists (category_out d).
  split; [by rewrite list_lookup_fmap, Hd|].
  split; [apply category_out_shape|].
  split; [intros k; apply category_out_lookup|].
  intros k Hk. apply not_elem_of_dom. by rewrite category_out_shape.
Qed.

Lemma get_categories_rows_witness :
  ∃ rows,
    get_categories (get_categories empty_world).2
      = (Ok rows, (get_categories empty_world).2)
    ∧ length rows = length (coll "category" (get_categories empty_world).2)
    ∧ ∀ i d, coll "category" (get_categories empty_world).2 !! i = Some d →
        ∃ r, rows !! i = Some r
          ∧ dom r = category_keys
          ∧ (∀ k, k ∈ category_keys → r !! k = Some (default VNone (d !! k)))
          ∧ (∀ k, k ∉ category_keys → r !! k = None).
Proof.
  apply (get_categories_rows (get_categories empty_world).2).
  - vm_compute. reflexivity.
  - intros H. apply (f_equal length) in H. vm_compute in H. discriminate H.
Defined.

(* ===================================================================== *)
(** * The form of the password hash                                       *)
(* ===================================================================== *)





(* ===================================================================== *)
(** * How the handlers compose                                            *)
(* ===================================================================== *)

Lemma slice_to_take {A} (n : Z) (l : list A) : ∃ k, slice_to n l = take k l.
Proof. unfold slice_to. destruct (0 <=? n); by eexists. Qed.

Lemma cursor_limit_take (n : Z) (c : list doc) : ∃ k, cursor_limit n c = take k c.
Proof.
  unfold cursor_limit. destruct (n =? 0); [|by eexists].
  exists (length c). by rewrite firstn_all.
Qed.

(** For every limit, negative ones included, [list_products] returns the
    projections of an initial segment of the matching records, in their
    order: the limit never reorders the records and never skips one to
    return a later one. *)
Theorem list_products_initial_segment
    (str_other : value → string) (w : World) (category : option string) (limit : Z) :
  (db w = ImportFails →
     ∃ k, list_products str_other category limit w
          = (Ok (demo_product_out <$> take k (matching category w)), w))
  ∧ (db w = DbReady →
     ∃ k, list_products str_other category limit w
          = (Ok (product_out str_other <$> take k (matching category w)), w)).
Proof.
  split; intros Hdb.
  - destruct (slice_to_take limit (matching category w)) as [k Hk].
    exists k. rewrite list_products_demo by done. by rewrite Hk.
  - destruct (cursor_limit_take limit (matching category w)) as [k Hk].
    exists k. rewrite list_products_ready by done. by rewrite Hk.
Qed.

(** A second call of [get_categories] right after a first one returns what
    the first returned and changes nothing, whatever the import gave and
    whatever the store held. *)
Theorem get_categories_twice (w : World) :
  get_categories (get_categories w).2
  = ((get_categories w).1, (get_categories w).2).
Proof.
  destruct (get_categories_outcomes w)
    as [(o & E)|(Hw & Hc & w' & E & Hdb & Hclk & Hcat & Hoth)].
  - by rewrite !E.
  - rewrite E. cbn [fst snd].
    assert (coll "category" w' ≠ []) as Hne.
    { intros H. rewrite Hcat in H. apply (f_equal length) in H.
      rewrite length_stamp_all in H. discriminate H. }
    rewrite get_categories_nonempty; [|congruence|done].
    rewrite Hcat, category_out_stamp_all. by rewrite category_out_seed.
Qed.

Lemma user_with_email_grows email w (u d : doc) db' k t o :
  user_with_email email w = Some u →
  user_with_email email
    (mkWorld db' (<["user" := coll "user" w ++ [d]]> (store w)) k t o) = Some u.
Proof.
  unfold user_with_email. intros H.
  rewrite coll_insert_eq, List.filter_app.
  destruct (List.filter _ (coll "user" w)); [discriminate | done].
Qed.

(** With a reachable store, a signup never takes a login away: a login
    that succeeded before a call of [signup] succeeds after it, with the
    same response, whoever signed up and whether the signup succeeded. *)
Theorem signup_keeps_logins
    (str_other : value → string) (w : World) (sp : SignUpRequest)
    (lp : LoginRequest) (r : doc) :
  db w = DbReady →
  (login str_other lp w).1 = Ok r →
  (login str_other lp (signup str_other sp w).2).1 = Ok r.
Proof.
  intros Hdb Hlogin.
  destruct (signup_outcomes str_other sp w)
    as [(r' & -> & _)|[(e & ->)|(_ & Hnone & ->)]]; cbn [fst snd]; try done.
  rewrite login_ready in Hlogin by done. rewrite login_ready by done.
  destruct (user_with_email (li_email lp) w) as [u|] eqn:Hu; [|discriminate].
  rewrite (user_with_email_grows _ _ u _ _ _ _ _ Hu). cbn [li_email li_password].
  destruct (eq_str _ _); [exact Hlogin | discriminate Hlogin].
Qed.

Lemma signup_keeps_logins_witness :
  (login str_repr (mkLogin "ann@example.com" "hunter2")
     (signup str_repr (mkSignUp "Bob" "bob@example.com" "pw") ann_world).2).1
  = Ok {[ "ok" := VBool true; "user_id" := VStr "000000000000000000000000";
          "name" := VStr "Ann" ]}.
Proof.
  apply (signup_keeps_logins str_repr ann_world (mkSignUp "Bob" "bob@example.com" "pw")
           (mkLogin "ann@example.com" "hunter2")).
  - reflexivity.
  - vm_compute. reflexivity.
Defined.

Lemma matching_depends (category : option string) (w w' : World) :
  db w' = db w → coll "product" w' = coll "product" w →
  matching category w' = matching category w.
Proof. intros Hdb Hc. unfold matching, candidates. by rewrite Hdb, Hc. Qed.

Lemma user_with_email_depends email (w w' : World) :
  coll "user" w' = coll "user" w → user_with_email email w' = user_with_email email w.
Proof. intros Hc. unfold user_with_email. by rewrite Hc. Qed.

(** A call of [get_categories], seeding included, does not change what
    [list_products] and [login] answer afterwards. *)
Theorem get_categories_keeps_other_answers
    (str_other : value → string) (w : World) (category : option string)
    (limit : Z) (payload : LoginRequest) :
  (list_products str_other category limit (get_categories w).2).1
    = (list_products str_other category limit w).1
  ∧ (login str_other payload (get_categories w).2).1
    = (login str_other payload w).1.
Proof.
  destruct (get_categories_outcomes w)
    as [(o & ->)|(Hw & Hc & w' & -> & Hdb & Hclk & Hcat & Hoth)]; cbn [fst snd]; [done|].
  assert (coll "product" w' = coll "product" w) as Hp by (by apply Hoth).
  assert (coll "user" w' = coll "user" w) as Hu by (by apply Hoth).
  rewrite !list_products_ready, !login_ready by congruence. cbn [fst snd].
  rewrite (matching_depends _ w w') by congruence.
  rewrite (user_with_email_depends _ w w') by done. split; [done|].
  destruct (user_with_email _ w); [|done]. by destruct (eq_str _ _).
Qed.
